(** * balance-vidpid: Hamming-balanced vendor/product identifiers

    A shallow embedding of [scripts/balance-vidpid.py] and the properties of
    [balance_vidpid] and [main].

    Python integers are unbounded, so identifiers are values of [Z]; the
    32-bit mask of the script is written out with [Z.land].  Exceptions and
    the text written by [print] are threaded through a small state and error
    monad. *)

From Stdlib Require Import ZArith Lia Bool List Ascii String.
From Stdlib Require BinaryString HexString.
Import ListNotations.

Local Open Scope string_scope.
Local Open Scope Z_scope.

(** ** The fragment of the Python runtime the script uses *)

Module Py.

(** The only exception class the script raises or can receive from
    [int(_, 16)]; it carries its message. *)
Inductive exn : Type :=
| ValueError (msg : string).

(** What lives outside a call: the argument vector and the text written
    to standard output so far. *)
Record world : Type := World { argv : list string; stdout : string }.

(** A computation runs in a world and ends in a world, with a value or an
    exception. *)
Definition M (A : Type) : Type := world -> world * (exn + A).

Definition ret {A} (a : A) : M A := fun w => (w, inr a).

Definition raise {A} (e : exn) : M A := fun w => (w, inl e).

Definition bind {A B} (m : M A) (k : A -> M B) : M B :=
  fun w =>
    match m w with
    | (w', inl e) => (w', inl e)
    | (w', inr a) => k a w'
    end.

(** [sys.argv] *)
Definition sys_argv : M (list string) := fun w => (w, inr (argv w)).

(** [xs[1:]] *)
Definition slice_from_1 {A} (xs : list A) : list A := tl xs.

Definition newline : string := String (ascii_of_nat 10) "".

(** [print(s)]: the text, then a line feed. *)
Definition print (s : string) : M unit :=
  fun w => (World (argv w) (stdout w ++ s ++ newline), inr tt).

(** [for x in xs: body(x)]; an exception leaves the loop. *)
Fixpoint for_each {A} (xs : list A) (body : A -> M unit) : M unit :=
  match xs with
  | [] => ret tt
  | x :: rest => bind (body x) (fun _ => for_each rest body)
  end.

(** [bin(v)]: ["0b"] and the binary digits of the magnitude, after a
    ["-"] for a negative number. *)
Definition bin (v : Z) : string := BinaryString.of_Z v.

(** [s.count(c)] for a one-character [c]. *)
Fixpoint count (c : ascii) (s : string) : Z :=
  match s with
  | EmptyString => 0
  | String a rest => (if Ascii.eqb a c then 1 else 0) + count c rest
  end.

(** The hexadecimal digits of a magnitude, lower case, no prefix. *)
Definition hex_digits (v : Z) : string :=
  match v with
  | Z0 => "0"
  | Zpos p => HexString.Raw.of_pos p ""
  | Zneg p => HexString.Raw.of_pos p ""
  end.

Fixpoint zeros (n : nat) : string :=
  match n with
  | O => ""
  | S k => String "0" (zeros k)
  end.

(** ["{:#08x}".format(v)]: sign, the ["0x"] prefix, then the digits,
    with zeros between prefix and digits until the whole field (sign and
    prefix included) is 8 characters wide. *)
Definition format_x08 (v : Z) : string :=
  let sign := if (v <? 0)%Z then "-" else "" in
  let digits := hex_digits v in
  sign ++ "0x" ++ zeros (8 - length sign - 2 - length digits)%nat ++ digits.

End Py.

Import Py.

Declare Scope py_scope.
Delimit Scope py_scope with py.
Notation "x <- m ;; k" := (bind m (fun x => k))
  (at level 100, m at next level, right associativity) : py_scope.
Local Open Scope py_scope.

(** ** The script *)

(** [balance_vidpid], lines 31-46. *)
Definition balance_vidpid (vidpid : Z) : M Z :=
  if negb (vidpid =? 0) then
    if vidpid <=? 0x00007fff then
      let old_vidpid := vidpid in
      let vidpid :=
        Z.land (Z.lor vidpid (Z.shiftl (Z.lnot vidpid) 16)) 0xffffffff in
      ret vidpid
    else
      if negb (count "1"%char (bin vidpid) =? 16) then
        raise (ValueError
                 (format_x08 vidpid ++ " has an invalid Hamming weight"))
      else ret vidpid
  else ret vidpid.

Section Main.

(** [int(arg, 16)], a builtin: the integer, or the [ValueError] it
    raises on a string that is no base-16 literal. *)
Variable int16 : string -> exn + Z.

Definition int_base16 (arg : string) : M Z :=
  match int16 arg with
  | inl e => raise e
  | inr v => ret v
  end.

(** The body of the loop of [main], line 50-51. *)
Definition main_body (arg : string) : M unit :=
  val <- int_base16 arg ;;
  balanced <- balance_vidpid val ;;
  print (format_x08 val ++ " => " ++ format_x08 balanced).

(** [main], lines 48-51. *)
Definition main : M unit :=
  args <- sys_argv ;;
  for_each (slice_from_1 args) main_body.

End Main.

(** ** Hamming weight *)

(** The number of ones in the binary expansion of a positive number. *)
Fixpoint pos_popcount (p : positive) : Z :=
  match p with
  | xH => 1
  | xO q => pos_popcount q
  | xI q => 1 + pos_popcount q
  end.

(** The Hamming weight of an identifier: the number of set bits of its
    magnitude (see [popcount_testbit] for the bit-by-bit reading). *)
Definition popcount (v : Z) : Z :=
  match v with
  | Z0 => 0
  | Zpos p => pos_popcount p
  | Zneg p => pos_popcount p
  end.

(** The sum of the lowest [n] bits of [v]. *)
Fixpoint bit_sum (n : nat) (v : Z) : Z :=
  match n with
  | O => 0
  | S k => Z.b2z (Z.testbit v (Z.of_nat k)) + bit_sum k v
  end.

(** The value the mirroring branch computes (line 40). *)
Definition mirror (v : Z) : Z :=
  Z.land (Z.lor v (Z.shiftl (Z.lnot v) 16)) 0xffffffff.

(** The message of the exception raised at lines 44-45. *)
Definition invalid_weight (v : Z) : exn :=
  ValueError (format_x08 v ++ " has an invalid Hamming weight").

(** The text [main] hands to [print] for a value and its balanced form
    (line 51). *)
Definition output_line (val balanced : Z) : string :=
  format_x08 val ++ " => " ++ format_x08 balanced.

(** The lines printed for a list of values with their balanced forms. *)
Fixpoint output_lines (vbs : list (Z * Z)) : string :=
  match vbs with
  | [] => ""
  | (val, balanced) :: rest =>
      output_line val balanced ++ newline ++ output_lines rest
  end.

(** An argument that parses to [fst vb] whose balanced form is [snd vb]. *)
Definition balances_to (int16 : string -> exn + Z)
    (arg : string) (vb : Z * Z) : Prop :=
  int16 arg = inr (fst vb)
  /\ forall w, balance_vidpid (fst vb) w = (w, inr (snd vb)).

(** The output format in the words of the specification: a value "in
    hexadecimal zero-padded to 8 hex digits", read with or without a
    leading ["0x"] ([prefix]). *)
Definition spec_hex8 (prefix : string) (v : Z) : string :=
  prefix ++ zeros (8 - length (hex_digits v))%nat ++ hex_digits v.

Definition spec_line (prefix : string) (val balanced : Z) : string :=
  spec_hex8 prefix val ++ " => " ++ spec_hex8 prefix balanced.

(** An instance of the builtin for running [main] on examples: [int(s, 16)]
    on the non-empty strings of hexadecimal digits.  Every other string is
    reported invalid here, although Python also accepts a sign, a ["0x"]
    prefix, surrounding blanks and underscores. *)
Definition is_hex_digit (c : ascii) : bool :=
  match HexString.ascii_to_digit c with
  | Some _ => true
  | None => false
  end.

Fixpoint all_hex_digits (s : string) : bool :=
  match s with
  | EmptyString => true
  | String c rest => is_hex_digit c && all_hex_digits rest
  end.

Definition int16_unprefixed (s : string) : exn + Z :=
  if negb (String.eqb s "") && all_hex_digits s
  then inr (Z.of_N (HexString.Raw.to_N s 0))
  else inl (ValueError
              ("invalid literal for int() with base 16: '" ++ s ++ "'")).

(** ** Facts about [popcount] *)

Lemma pos_popcount_pos (p : positive) : 0 < pos_popcount p.
Proof. induction p; cbn [pos_popcount]; lia. Qed.

Lemma popcount_nonneg (v : Z) : 0 <= popcount v.
Proof.
  destruct v as [| p | p]; cbn [popcount];
    try pose proof (pos_popcount_pos p); lia.
Qed.

Lemma popcount_double (a b : Z) :
  0 <= a -> 0 <= b <= 1 -> popcount (2 * a + b) = b + popcount a.
Proof.
  intros Ha Hb.
  assert (b = 0 \/ b = 1) as [-> | ->] by lia;
    destruct a as [| p | p]; try lia; reflexivity.
Qed.

(** Every natural number is twice its half plus its lowest bit. *)
Lemma half_bit (v : Z) :
  exists a b, v = 2 * a + b /\ 0 <= b <= 1 /\ a = v / 2.
Proof.
  exists (v / 2), (v mod 2).
  pose proof (Z.mod_pos_bound v 2 ltac:(lia)).
  pose proof (Z.div_mod v 2 ltac:(lia)). lia.
Qed.

Lemma popcount_split (n : nat) :
  forall lo hi, 0 <= lo < 2 ^ Z.of_nat n -> 0 <= hi ->
    popcount (lo + hi * 2 ^ Z.of_nat n) = popcount lo + popcount hi.
Proof.
  induction n as [| n IH]; intros lo hi Hlo Hhi.
  - change (2 ^ Z.of_nat 0) with 1 in *.
    assert (lo = 0) as -> by lia. rewrite Z.mul_1_r. reflexivity.
  - rewrite Nat2Z.inj_succ, Z.pow_succ_r in * by lia.
    destruct (half_bit lo) as (a & b & -> & Hb & Ha).
    replace (2 * a + b + hi * (2 * 2 ^ Z.of_nat n))
      with (2 * (a + hi * 2 ^ Z.of_nat n) + b) by ring.
    assert (0 <= a < 2 ^ Z.of_nat n) by lia.
    rewrite !popcount_double by nia.
    rewrite IH by lia. ring.
Qed.

Lemma popcount_complement (n : nat) :
  forall v, 0 <= v < 2 ^ Z.of_nat n ->
    popcount (2 ^ Z.of_nat n - 1 - v) = Z.of_nat n - popcount v.
Proof.
  induction n as [| n IH]; intros v Hv.
  - change (2 ^ Z.of_nat 0) with 1 in *.
    assert (v = 0) as -> by lia. reflexivity.
  - rewrite Nat2Z.inj_succ, Z.pow_succ_r in * by lia.
    destruct (half_bit v) as (a & b & -> & Hb & Ha).
    replace (2 * 2 ^ Z.of_nat n - 1 - (2 * a + b))
      with (2 * (2 ^ Z.of_nat n - 1 - a) + (1 - b)) by ring.
    assert (0 <= a < 2 ^ Z.of_nat n) by lia.
    rewrite !popcount_double by lia.
    rewrite IH by lia. ring.
Qed.

Lemma bit_sum_double (n : nat) (a b : Z) :
  0 <= b <= 1 ->
  bit_sum (S n) (2 * a + b) = b + bit_sum n a.
Proof.
  intros Hb. induction n as [| n IH].
  - cbn [bit_sum]. change (Z.of_nat 0) with 0.
    assert (b = 0 \/ b = 1) as [-> | ->] by lia.
    + replace (2 * a + 0) with (2 * a) by ring.
      rewrite Z.testbit_even_0. reflexivity.
    + rewrite Z.testbit_odd_0. reflexivity.
  - change (bit_sum (S (S n)) (2 * a + b))
      with (Z.b2z (Z.testbit (2 * a + b) (Z.of_nat (S n)))
            + bit_sum (S n) (2 * a + b)).
    rewrite IH. cbn [bit_sum].
    rewrite Nat2Z.inj_succ.
    assert (Z.testbit (2 * a + b) (Z.succ (Z.of_nat n))
            = Z.testbit a (Z.of_nat n)) as ->.
    { assert (b = 0 \/ b = 1) as [-> | ->] by lia.
      - replace (2 * a + 0) with (2 * a) by ring.
        apply Z.testbit_even_succ. lia.
      - apply Z.testbit_odd_succ. lia. }
    ring.
Qed.

(** [popcount] counts the set bits: on an [n]-bit value it is the sum of
    the [n] lowest bits. *)
Lemma popcount_testbit (n : nat) :
  forall v, 0 <= v < 2 ^ Z.of_nat n -> popcount v = bit_sum n v.
Proof.
  induction n as [| n IH]; intros v Hv.
  - change (2 ^ Z.of_nat 0) with 1 in *.
    assert (v = 0) as -> by lia. reflexivity.
  - rewrite Nat2Z.inj_succ, Z.pow_succ_r in * by lia.
    destruct (half_bit v) as (a & b & -> & Hb & Ha).
    assert (0 <= a < 2 ^ Z.of_nat n) by lia.
    rewrite bit_sum_double, popcount_double by lia.
    rewrite IH by lia. reflexivity.
Qed.

(** ** [bin(v).count('1')] is the Hamming weight *)

Lemma count_bin_digits (p : positive) :
  forall rest,
    count "1"%char (BinaryString.Raw.of_pos p rest)
    = pos_popcount p + count "1"%char rest.
Proof.
  induction p as [q IH | q IH |]; intros rest;
    cbn [BinaryString.Raw.of_pos pos_popcount].
  - rewrite IH. cbn [count Ascii.eqb Bool.eqb]. ring.
  - rewrite IH. cbn [count Ascii.eqb Bool.eqb]. ring.
  - cbn [count Ascii.eqb Bool.eqb]. ring.
Qed.

Lemma count_bin (v : Z) : count "1"%char (bin v) = popcount v.
Proof.
  destruct v as [| p | p]; try reflexivity.
  - unfold bin, BinaryString.of_Z, BinaryString.of_pos.
    cbn [count Ascii.eqb Bool.eqb].
    rewrite count_bin_digits. cbn [count popcount]. ring.
  - unfold bin, BinaryString.of_Z, BinaryString.of_pos.
    cbn [count Ascii.eqb Bool.eqb].
    rewrite count_bin_digits. cbn [count popcount]. ring.
Qed.

(** ** The mirrored value *)

Lemma low_bits_disjoint (v k : Z) :
  0 <= v < 2 ^ 16 -> Z.land v (Z.shiftl k 16) = 0.
Proof.
  intros Hv. apply Z.bits_inj'. intros n Hn.
  rewrite Z.land_spec, Z.bits_0.
  destruct (Z.lt_ge_cases n 16).
  - rewrite Z.shiftl_spec_low by lia. apply andb_false_r.
  - rewrite <- (Z.mod_small v (2 ^ 16)) by lia.
    rewrite Z.mod_pow2_bits_high by lia. reflexivity.
Qed.

(** On a 16-bit value the bit formula of line 40 puts the value in the low
    half and its 16-bit complement in the high half. *)
Lemma mirror_eq (v : Z) :
  0 <= v < 2 ^ 16 -> mirror v = v + (65535 - v) * 65536.
Proof.
  intros Hv. unfold mirror.
  pose proof (Z.add_lor_land v (Z.shiftl (Z.lnot v) 16)) as H.
  rewrite low_bits_disjoint, Z.add_0_r in H by assumption. rewrite H.
  change 0xffffffff with (Z.ones 32). rewrite Z.land_ones by lia.
  rewrite Z.shiftl_mul_pow2 by lia.
  pose proof (Z.opp_lnot v) as Hn.
  replace (Z.lnot v) with (- v - 1) by lia.
  change (2 ^ 16) with 65536 in *. change (2 ^ 32) with 4294967296.
  symmetry. apply Z.mod_unique with (q := -1); lia.
Qed.

Lemma mirror_popcount (v : Z) : 0 <= v < 2 ^ 16 -> popcount (mirror v) = 16.
Proof.
  intros Hv. rewrite mirror_eq by assumption.
  change 65536 with (2 ^ Z.of_nat 16). change 65535 with (2 ^ Z.of_nat 16 - 1).
  change (2 ^ 16) with (2 ^ Z.of_nat 16) in Hv.
  rewrite popcount_split by lia.
  rewrite popcount_complement by lia.
  change (Z.of_nat 16) with 16. ring.
Qed.

(** ** The three paths of [balance_vidpid] *)

Lemma balance_zero (w : world) : balance_vidpid 0 w = (w, inr 0).
Proof. reflexivity. Qed.

Lemma balance_mirror (v : Z) (w : world) :
  v <> 0 -> v <= 0x7fff -> balance_vidpid v w = (w, inr (mirror v)).
Proof.
  intros Hnz Hle. unfold balance_vidpid.
  destruct (Z.eqb_spec v 0) as [| _]; [contradiction |].
  destruct (Z.leb_spec v 0x7fff) as [_ |]; [| lia].
  reflexivity.
Qed.

Lemma balance_check (v : Z) (w : world) :
  0x7fff < v ->
  balance_vidpid v w
  = (w, if popcount v =? 16 then inr v else inl (invalid_weight v)).
Proof.
  intros Hgt. unfold balance_vidpid.
  destruct (Z.eqb_spec v 0) as [| _]; [lia |].
  destruct (Z.leb_spec v 0x7fff) as [| _]; [lia |].
  rewrite count_bin.
  destruct (popcount v =? 16); reflexivity.
Qed.

(** What a call can end in, over all integers. *)
Lemma balance_cases (v : Z) (w : world) :
  (v = 0 /\ balance_vidpid v w = (w, inr 0))
  \/ (v <> 0 /\ v <= 0x7fff /\ balance_vidpid v w = (w, inr (mirror v)))
  \/ (0x7fff < v /\ popcount v = 16 /\ balance_vidpid v w = (w, inr v))
  \/ (0x7fff < v /\ popcount v <> 16
      /\ balance_vidpid v w = (w, inl (invalid_weight v))).
Proof.
  destruct (Z.eq_dec v 0) as [-> | Hnz]; [left; split; reflexivity |].
  destruct (Z_le_gt_dec v 0x7fff) as [Hle | Hgt].
  - right; left. auto using balance_mirror.
  - rewrite balance_check by lia.
    destruct (Z.eqb_spec (popcount v) 16) as [Heq | Hne].
    + right; right; left. repeat split; auto; lia.
    + right; right; right. repeat split; auto; lia.
Qed.

Lemma mirror_range (v : Z) :
  0 <= v <= 0x7fff -> 0x7fff < mirror v <= 0xffffffff.
Proof.
  intros Hv. rewrite mirror_eq by (change (2 ^ 16) with 65536; lia). lia.
Qed.

Lemma mirror_masked (v : Z) : 0 <= mirror v <= 0xffffffff.
Proof.
  unfold mirror.
  set (x := Z.lor v (Z.shiftl (Z.lnot v) 16)).
  change (Z.land x 0xffffffff) with (Z.land x (Z.ones 32)).
  rewrite Z.land_ones by lia.
  assert (Hpos : 0 < 4294967296) by lia.
  pose proof (Z.mod_pos_bound x 4294967296 Hpos).
  change (2 ^ 32) with 4294967296. lia.
Qed.

(** ** Properties of [balance_vidpid] *)

(** C1: on an identifier in [0, 0xFFFFFFFF], a call that returns a nonzero
    value returns one whose Hamming weight is exactly 16. *)
Theorem balance_result_weight (v r : Z) (w w' : world) :
  0 <= v <= 0xFFFFFFFF ->
  balance_vidpid v w = (w', inr r) ->
  r <> 0 ->
  popcount r = 16.
Proof.
  intros Hv Hrun Hr.
  destruct (balance_cases v w)
    as [[_ H] | [(_ & Hle & H) | [(_ & Hpc & H) | (_ & _ & H)]]];
    rewrite H in Hrun; inversion Hrun; subst.
  - contradiction.
  - apply mirror_popcount. change (2 ^ 16) with 65536. lia.
  - assumption.
Qed.

Lemma balance_result_weight_witness :
  0 <= 0x1234 <= 0xFFFFFFFF
  /\ balance_vidpid 0x1234 (World [] "") = (World [] "", inr 0xEDCB1234)
  /\ popcount 0xEDCB1234 = 16.
Proof.
  assert (H1 : 0 <= 0x1234 <= 0xFFFFFFFF) by lia.
  assert (H2 : balance_vidpid 0x1234 (World [] "")
               = (World [] "", inr 0xEDCB1234)) by reflexivity.
  assert (H3 : 0xEDCB1234 <> 0) by lia.
  exact (conj H1 (conj H2 (balance_result_weight _ _ _ _ H1 H2 H3))).
Defined.

(** C2: on an identifier [v] in [1, 0x7FFF] the call returns
    [(v | (~v << 16)) & 0xFFFFFFFF]: the low 16 bits of the result are [v],
    the high 16 bits are the 16-bit one's complement of [v], and the result
    has Hamming weight 16; in particular 0x1234 gives 0xEDCB1234. *)
Theorem balance_mirrors_15_bit (v : Z) (w : world) :
  1 <= v <= 0x7FFF ->
  (exists r,
      balance_vidpid v w = (w, inr r)
      /\ r = Z.land (Z.lor v (Z.shiftl (Z.lnot v) 16)) 0xFFFFFFFF
      /\ Z.land r 0xFFFF = v
      /\ Z.shiftr r 16 = Z.land (Z.lnot v) 0xFFFF
      /\ popcount r = 16)
  /\ balance_vidpid 0x1234 w = (w, inr 0xEDCB1234).
Proof.
  intros Hv. split; [| reflexivity].
  assert (H16 : 0 <= v < 2 ^ 16) by (change (2 ^ 16) with 65536; lia).
  exists (mirror v). split; [apply balance_mirror; lia |].
  split; [reflexivity |].
  repeat split.
  - change 0xFFFF with (Z.ones 16). rewrite Z.land_ones by lia.
    rewrite mirror_eq by assumption.
    change (2 ^ 16) with 65536 in *.
    symmetry. apply Z.mod_unique with (q := 65535 - v); lia.
  - change 0xFFFF with (Z.ones 16). rewrite Z.land_ones by lia.
    rewrite mirror_eq by assumption.
    rewrite Z.shiftr_div_pow2 by lia.
    pose proof (Z.opp_lnot v) as Hn.
    replace (Z.lnot v) with (- v - 1) by lia.
    change (2 ^ 16) with 65536 in *.
    transitivity (65535 - v).
    + symmetry. apply Z.div_unique with (r := v); lia.
    + apply Z.mod_unique with (q := -1); lia.
  - apply mirror_popcount. assumption.
Qed.

Lemma balance_mirrors_15_bit_witness :
  1 <= 0x7FFF <= 0x7FFF
  /\ exists r,
      balance_vidpid 0x7FFF (World [] "") = (World [] "", inr r)
      /\ r = Z.land (Z.lor 0x7FFF (Z.shiftl (Z.lnot 0x7FFF) 16)) 0xFFFFFFFF
      /\ Z.land r 0xFFFF = 0x7FFF
      /\ Z.shiftr r 16 = Z.land (Z.lnot 0x7FFF) 0xFFFF
      /\ popcount r = 16.
Proof.
  assert (H : 1 <= 0x7FFF <= 0x7FFF) by lia.
  exact (conj H (proj1 (balance_mirrors_15_bit 0x7FFF (World [] "") H))).
Defined.

(** C3: on an identifier [v] in [0x8000, 0xFFFFFFFF] the call raises the
    error that carries [v] exactly when the Hamming weight of [v] is not 16,
    and on [0, 0xFFFFFFFF] a call raises nothing else. *)
Theorem balance_error_iff (v : Z) (w : world) :
  0 <= v <= 0xFFFFFFFF ->
  (0x8000 <= v ->
   (balance_vidpid v w = (w, inl (invalid_weight v)) <-> popcount v <> 16))
  /\ (forall e w',
         balance_vidpid v w = (w', inl e) ->
         e = invalid_weight v /\ 0x8000 <= v /\ popcount v <> 16).
Proof.
  intros Hv. split.
  - intros Hhi. rewrite balance_check by lia.
    destruct (Z.eqb_spec (popcount v) 16) as [Heq | Hne]; split;
      intros H; try discriminate; try contradiction; auto.
  - intros e w' Hrun.
    destruct (balance_cases v w)
      as [[_ H] | [(_ & _ & H) | [(_ & _ & H) | (Hgt & Hpc & H)]]];
      rewrite H in Hrun; inversion Hrun; subst.
    repeat split; auto; lia.
Qed.

Lemma balance_error_iff_witness :
  0 <= 0x00010000 <= 0xFFFFFFFF
  /\ 0x8000 <= 0x00010000
  /\ popcount 0x00010000 <> 16
  /\ balance_vidpid 0x00010000 (World [] "")
     = (World [] "", inl (invalid_weight 0x00010000)).
Proof.
  assert (H1 : 0 <= 0x00010000 <= 0xFFFFFFFF) by lia.
  assert (H2 : 0x8000 <= 0x00010000) by lia.
  assert (H3 : popcount 0x00010000 <> 16) by (vm_compute; lia).
  exact (conj H1 (conj H2 (conj H3
    (proj2 (proj1 (balance_error_iff _ (World [] "") H1) H2) H3)))).
Defined.

(** C4: on an identifier [v] in [0x8000, 0xFFFFFFFF] of Hamming weight 16
    the call returns [v] unchanged; for instance 0xFFFF0000. *)
Theorem balance_identity_on_balanced (v : Z) (w : world) :
  0x8000 <= v <= 0xFFFFFFFF ->
  popcount v = 16 ->
  balance_vidpid v w = (w, inr v)
  /\ balance_vidpid 0xFFFF0000 w = (w, inr 0xFFFF0000).
Proof.
  intros Hv Hpc. split; [| reflexivity].
  rewrite balance_check by lia. rewrite Hpc. reflexivity.
Qed.

Lemma balance_identity_on_balanced_witness :
  0x8000 <= 0x0000FFFF <= 0xFFFFFFFF
  /\ popcount 0x0000FFFF = 16
  /\ balance_vidpid 0x0000FFFF (World [] "") = (World [] "", inr 0x0000FFFF).
Proof.
  assert (H1 : 0x8000 <= 0x0000FFFF <= 0xFFFFFFFF) by lia.
  assert (H2 : popcount 0x0000FFFF = 16) by reflexivity.
  exact (conj H1 (conj H2
    (proj1 (balance_identity_on_balanced _ (World [] "") H1 H2)))).
Defined.

(** C5: the call on 0 returns 0 and raises nothing. *)
Theorem balance_zero_unchanged (w : world) :
  balance_vidpid 0 w = (w, inr 0).
Proof. apply balance_zero. Qed.

(** C6: on an identifier in [0, 0xFFFFFFFF], when a call returns [r], a
    call on [r] returns [r] again. *)
Theorem balance_idempotent (v r : Z) (w w' : world) :
  0 <= v <= 0xFFFFFFFF ->
  balance_vidpid v w = (w', inr r) ->
  balance_vidpid r w' = (w', inr r).
Proof.
  intros Hv Hrun.
  destruct (balance_cases v w)
    as [[_ H] | [(_ & Hle & H) | [(Hgt & Hpc & H) | (_ & _ & H)]]];
    rewrite H in Hrun; inversion Hrun; subst.
  - reflexivity.
  - pose proof (mirror_range v ltac:(lia)) as Hm.
    rewrite balance_check by lia.
    rewrite mirror_popcount by (change (2 ^ 16) with 65536; lia).
    reflexivity.
  - assumption.
Qed.

Lemma balance_idempotent_witness :
  0 <= 0x1234 <= 0xFFFFFFFF
  /\ balance_vidpid 0x1234 (World [] "") = (World [] "", inr 0xEDCB1234)
  /\ balance_vidpid 0xEDCB1234 (World [] "") = (World [] "", inr 0xEDCB1234).
Proof.
  assert (H1 : 0 <= 0x1234 <= 0xFFFFFFFF) by lia.
  assert (H2 : balance_vidpid 0x1234 (World [] "")
               = (World [] "", inr 0xEDCB1234)) by reflexivity.
  exact (conj H1 (conj H2 (balance_idempotent _ _ _ _ H1 H2))).
Defined.

(** C7: after the test for zero, the mirroring branch is taken exactly
    when the identifier is at most 0x7FFF.  0x7FFF is mirrored; 0x8000 goes
    to the Hamming-weight check and, having weight 1, is rejected, not
    mirrored. *)
Theorem mirror_branch_boundary (v : Z) (w : world) :
  balance_vidpid v w
  = (if v =? 0 then (w, inr v)
     else if v <=? 0x7FFF then (w, inr (mirror v))
     else if popcount v =? 16 then (w, inr v)
     else (w, inl (invalid_weight v)))
  /\ balance_vidpid 0x7FFF w = (w, inr 0x80007FFF)
  /\ popcount 0x8000 = 1
  /\ balance_vidpid 0x8000 w
     = (w, inl (ValueError "0x008000 has an invalid Hamming weight"))
  /\ balance_vidpid 0x8000 w <> (w, inr (mirror 0x8000)).
Proof.
  split; [| repeat split; try reflexivity; discriminate].
  destruct (Z.eqb_spec v 0) as [-> | Hnz]; [reflexivity |].
  destruct (Z.leb_spec v 0x7FFF) as [Hle | Hgt].
  - apply balance_mirror; assumption.
  - rewrite balance_check by lia.
    destruct (popcount v =? 16); reflexivity.
Qed.

(** C9: a call neither reads nor changes what is outside it: its outcome
    (the value returned, or the error raised) is the same in any two worlds,
    so two calls on one identifier agree, and the world after the call is
    the world before it. *)
Theorem balance_pure (v : Z) (w1 w2 : world) :
  snd (balance_vidpid v w1) = snd (balance_vidpid v w2)
  /\ fst (balance_vidpid v w1) = w1
  /\ balance_vidpid v (fst (balance_vidpid v w1)) = balance_vidpid v w1.
Proof.
  unfold balance_vidpid.
  destruct (v =? 0); cbn [negb]; [repeat split |].
  destruct (v <=? 0x7fff); [repeat split |].
  destruct (count "1"%char (bin v) =? 16); repeat split.
Qed.

(** C10: the 32-bit range of the input is not checked.  An identifier above
    0xFFFFFFFF of Hamming weight 16 is returned unchanged and unmasked, so
    the result is wider than 32 bits; the result is a 32-bit value whenever
    the input is at most 0xFFFFFFFF. *)
Theorem balance_unchecked_above_32_bits (v : Z) (w : world) :
  0xFFFFFFFF < v ->
  popcount v = 16 ->
  balance_vidpid v w = (w, inr v)
  /\ ~ (0 <= v <= 0xFFFFFFFF)
  /\ (forall u r w1 w2,
         u <= 0xFFFFFFFF ->
         balance_vidpid u w1 = (w2, inr r) ->
         0 <= r <= 0xFFFFFFFF).
Proof.
  intros Hv Hpc. split; [| split].
  - rewrite balance_check by lia. rewrite Hpc. reflexivity.
  - lia.
  - intros u r w1 w2 Hu Hrun.
    destruct (balance_cases u w1)
      as [[_ H] | [(_ & _ & H) | [(Hgt & _ & H) | (_ & _ & H)]]];
      rewrite H in Hrun; inversion Hrun; subst.
    + lia.
    + apply mirror_masked.
    + lia.
Qed.

Lemma balance_unchecked_above_32_bits_witness :
  0xFFFFFFFF < 0xFFFF00000000
  /\ popcount 0xFFFF00000000 = 16
  /\ balance_vidpid 0xFFFF00000000 (World [] "")
     = (World [] "", inr 0xFFFF00000000).
Proof.
  assert (H1 : 0xFFFFFFFF < 0xFFFF00000000) by lia.
  assert (H2 : popcount 0xFFFF00000000 = 16) by reflexivity.
  exact (conj H1 (conj H2
    (proj1 (balance_unchecked_above_32_bits _ (World [] "") H1 H2)))).
Defined.

(** ** Strings *)

Lemma append_assoc (a b c : string) : (a ++ b) ++ c = a ++ (b ++ c).
Proof.
  induction a as [| x a IH]; cbn [append]; [| rewrite IH]; reflexivity.
Qed.

Lemma append_nil_r (a : string) : a ++ "" = a.
Proof.
  induction a as [| x a IH]; cbn [append]; [| rewrite IH]; reflexivity.
Qed.

Lemma length_append (a b : string) :
  length (a ++ b) = (length a + length b)%nat.
Proof.
  induction a as [| x a IH]; cbn [append length plus]; [| rewrite IH];
    reflexivity.
Qed.

Lemma length_zeros (n : nat) : length (zeros n) = n.
Proof.
  induction n as [| n IH]; cbn [zeros length]; [| rewrite IH]; reflexivity.
Qed.

(** ** The output format *)

Lemma format_x08_nonneg (v : Z) :
  0 <= v ->
  format_x08 v
  = "0x" ++ zeros (6 - length (hex_digits v)) ++ hex_digits v.
Proof.
  intros Hv. unfold format_x08.
  destruct (Z.ltb_spec v 0) as [| _]; [lia |]. reflexivity.
Qed.

Lemma format_x08_length (v : Z) :
  0 <= v ->
  length (format_x08 v) = Nat.max 8 (2 + length (hex_digits v)).
Proof.
  intros Hv. rewrite format_x08_nonneg by assumption.
  rewrite !length_append, length_zeros. cbn [length]. lia.
Qed.

(** The digits are those of the value: read back in base 16 they give it. *)
Lemma hex_digits_value (v : Z) :
  0 <= v -> Z.of_N (HexString.Raw.to_N (hex_digits v) 0) = v.
Proof.
  intros Hv. destruct v as [| p | p]; [reflexivity | | lia].
  cbn [hex_digits]. rewrite HexString.Raw.to_N_of_pos. reflexivity.
Qed.

(** ** The loop of [main] *)

Lemma main_body_ok (int16 : string -> exn + Z) (arg : string) (v b : Z)
    (w : world) :
  int16 arg = inr v ->
  balance_vidpid v w = (w, inr b) ->
  main_body int16 arg w
  = (World (argv w) (stdout w ++ output_line v b ++ newline), inr tt).
Proof.
  intros Hparse Hbal. unfold main_body, int_base16, bind.
  rewrite Hparse. unfold ret. rewrite Hbal. reflexivity.
Qed.

(** The arguments that succeed are consumed one line each. *)
Lemma for_each_done (int16 : string -> exn + Z) (done : list string)
    (vbs : list (Z * Z)) :
  Forall2 (balances_to int16) done vbs ->
  forall rest w,
    for_each (done ++ rest) (main_body int16) w
    = for_each rest (main_body int16)
        (World (argv w) (stdout w ++ output_lines vbs)).
Proof.
  induction 1 as [| arg [v b] done vbs [Hparse Hbal] _ IH]; intros rest w.
  - cbn [output_lines app]. rewrite append_nil_r. destruct w; reflexivity.
  - cbn [app for_each fst snd] in *. unfold bind at 1.
    rewrite (main_body_ok int16 arg v b w Hparse (Hbal w)).
    rewrite IH. cbn [argv stdout output_lines].
    rewrite !append_assoc. reflexivity.
Qed.

(** One turn of the loop only appends to standard output. *)
Lemma main_body_appends (int16 : string -> exn + Z) (arg : string)
    (w : world) :
  exists tail, stdout (fst (main_body int16 arg w)) = stdout w ++ tail.
Proof.
  unfold main_body, int_base16, bind.
  destruct (int16 arg) as [e | v].
  - exists "". cbn [raise fst]. symmetry. apply append_nil_r.
  - unfold ret.
    destruct (balance_cases v w)
      as [[_ H] | [(_ & _ & H) | [(_ & _ & H) | (_ & _ & H)]]];
      rewrite H; unfold print; cbn [fst stdout]; eauto.
    exists "". symmetry. apply append_nil_r.
Qed.

(** Whatever the arguments, so does the whole loop. *)
Lemma for_each_appends (int16 : string -> exn + Z) (args : list string) :
  forall w, exists tail,
    stdout (fst (for_each args (main_body int16) w)) = stdout w ++ tail.
Proof.
  induction args as [| arg args IH]; intros w.
  - exists "". cbn [for_each ret fst]. symmetry. apply append_nil_r.
  - cbn [for_each]. unfold bind at 1.
    destruct (main_body_appends int16 arg w) as [t1 H1].
    destruct (main_body int16 arg w) as [w1 [e | u]]; cbn [fst] in *.
    + eauto.
    + destruct (IH w1) as [t2 H2]. exists (t1 ++ t2).
      rewrite H2, H1. apply append_assoc.
Qed.

(** ** Properties of [main] *)

(** X14: the arguments that parse and balance, up to the first that does
    not, give one line each, in order: the value formatted with
    [{:#08x}], then [" => "], then the balanced value formatted the same
    way, then a line feed.  When every argument parses and balances, these
    lines are all that is printed and [main] returns normally. *)
Theorem main_prints_lines (int16 : string -> exn + Z) (prog : string)
    (done rest : list string) (vbs : list (Z * Z)) (out : string) :
  Forall2 (balances_to int16) done vbs ->
  (exists tail,
      stdout (fst (main int16 (World (prog :: done ++ rest) out)))
      = out ++ output_lines vbs ++ tail)
  /\ main int16 (World (prog :: done) out)
     = (World (prog :: done) (out ++ output_lines vbs), inr tt).
Proof.
  intros Hok. split.
  - unfold main, bind, sys_argv. cbn [argv slice_from_1 tl].
    rewrite (for_each_done int16 done vbs Hok). cbn [argv stdout].
    destruct (for_each_appends int16 rest
                (World (prog :: done ++ rest) (out ++ output_lines vbs)))
      as [tail Htail].
    exists tail. rewrite Htail. cbn [stdout]. apply append_assoc.
  - unfold main, bind, sys_argv. cbn [argv slice_from_1 tl].
    rewrite <- (app_nil_r done) at 1.
    rewrite (for_each_done int16 done vbs Hok). reflexivity.
Qed.

Lemma main_prints_lines_witness :
  Forall2 (balances_to int16_unprefixed)
    ["1234"; "0"] [(0x1234, 0xEDCB1234); (0, 0)]
  /\ (exists tail,
         stdout (fst (main int16_unprefixed
                        (World ["balance-vidpid.py"; "1234"; "0"; "10000";
                                "ffff"] "")))
         = "" ++ output_lines [(0x1234, 0xEDCB1234); (0, 0)] ++ tail)
  /\ main int16_unprefixed (World ["balance-vidpid.py"; "1234"; "0"] "")
     = (World ["balance-vidpid.py"; "1234"; "0"]
          ("" ++ output_lines [(0x1234, 0xEDCB1234); (0, 0)]), inr tt).
Proof.
  assert (H : Forall2 (balances_to int16_unprefixed)
                ["1234"; "0"] [(0x1234, 0xEDCB1234); (0, 0)]).
  { repeat constructor. }
  exact (conj H (main_prints_lines int16_unprefixed "balance-vidpid.py"
                   ["1234"; "0"] ["10000"; "ffff"] _ "" H)).
Defined.

(** C8: both values of a line are to be zero-padded to 8 hexadecimal
    digits, and [main] does not do it.  For the argument ["1234"], which
    parses to 0x1234 and balances to 0xEDCB1234, the line printed is
    ["0x001234 => 0xedcb1234"]: the width 8 of [{:#08x}] counts the ["0x"]
    prefix, so the zero fill stops at 6 digits.  The line is not the one
    with both values padded to 8 digits, with or without the prefix. *)
Lemma main_line_not_8_digits :
  int16_unprefixed "1234" = inr 0x1234
  /\ balance_vidpid 0x1234 (World ["balance-vidpid.py"; "1234"] "")
     = (World ["balance-vidpid.py"; "1234"] "", inr 0xEDCB1234)
  /\ main int16_unprefixed (World ["balance-vidpid.py"; "1234"] "")
     = (World ["balance-vidpid.py"; "1234"]
          ("0x001234 => 0xedcb1234" ++ newline), inr tt)
  /\ spec_line "" 0x1234 0xEDCB1234 = "00001234 => edcb1234"
  /\ spec_line "0x" 0x1234 0xEDCB1234 = "0x00001234 => 0xedcb1234"
  /\ "0x001234 => 0xedcb1234" <> spec_line "" 0x1234 0xEDCB1234
  /\ "0x001234 => 0xedcb1234" <> spec_line "0x" 0x1234 0xEDCB1234.
Proof.
  repeat split; try reflexivity; vm_compute; discriminate.
Qed.

(** ** Further properties of [balance_vidpid] *)

Lemma popcount_pos (x : Z) : 0 < x -> 0 < popcount x.
Proof.
  destruct x as [| p | p]; try lia. intros _. apply pos_popcount_pos.
Qed.

Lemma popcount_below_ones (n : nat) (x : Z) :
  0 <= x < 2 ^ Z.of_nat n - 1 -> popcount x < Z.of_nat n.
Proof.
  intros Hx.
  pose proof (popcount_complement n x ltac:(lia)) as Hc.
  pose proof (popcount_pos (2 ^ Z.of_nat n - 1 - x) ltac:(lia)). lia.
Qed.

(** A negative number no smaller than [-2^16] has every bit from 16 up
    set, so or-ing anything shifted by 16 into it changes nothing. *)
Lemma lor_high_negative (v k : Z) :
  - 2 ^ 16 <= v < 0 -> Z.lor v (Z.shiftl k 16) = v.
Proof.
  intros Hv. apply Z.bits_inj'. intros n Hn.
  rewrite Z.lor_spec.
  destruct (Z.lt_ge_cases n 16).
  - rewrite Z.shiftl_spec_low by lia. apply orb_false_r.
  - assert (Z.testbit v n = true) as ->; [| reflexivity].
    apply Z.bits_above_log2_neg; [lia |].
    destruct (Z.eq_dec (Z.pred (- v)) 0) as [-> | Hnz].
    + change (Z.log2 0) with 0. lia.
    + apply Z.log2_lt_pow2; [lia |].
      apply Z.lt_le_trans with (2 ^ 16); [lia |].
      apply Z.pow_le_mono_r; lia.
Qed.

Lemma mirror_negative (v : Z) :
  - 0x10000 < v < 0 -> mirror v = 0xFFFF0000 + (v + 0x10000).
Proof.
  intros Hv. unfold mirror.
  rewrite lor_high_negative by (change (2 ^ 16) with 65536; lia).
  change (Z.land v 0xffffffff) with (Z.land v (Z.ones 32)).
  rewrite Z.land_ones by lia. change (2 ^ 32) with 4294967296.
  symmetry. apply Z.mod_unique with (q := -1); lia.
Qed.

(** X1: the test of line 43 counts set bits.  On a value below [2^n],
    [bin(v).count('1')] is the sum of the [n] lowest bits of [v]: the
    ["0b"] prefix adds nothing, and neither does the sign of a negative
    number. *)
Theorem weight_check_counts_bits (n : nat) (v : Z) :
  0 <= v < 2 ^ Z.of_nat n ->
  count "1"%char (bin v) = bit_sum n v
  /\ count "1"%char (bin (- v)) = bit_sum n v.
Proof.
  intros Hv. rewrite !count_bin.
  assert (popcount (- v) = popcount v) as -> by (destruct v; reflexivity).
  split; apply popcount_testbit; assumption.
Qed.

Lemma weight_check_counts_bits_witness :
  0 <= 0xEDCB1234 < 2 ^ Z.of_nat 32
  /\ count "1"%char (bin 0xEDCB1234) = bit_sum 32 0xEDCB1234.
Proof.
  assert (H : 0 <= 0xEDCB1234 < 2 ^ Z.of_nat 32)
    by (change (2 ^ Z.of_nat 32) with 4294967296; lia).
  exact (conj H (proj1 (weight_check_counts_bits 32 _ H))).
Defined.

(** X2: a negative identifier (which [int(arg, 16)] yields for an argument
    such as ["-1"]) is never rejected: it takes the mirroring branch and
    the result is a 32-bit value.  Above [-0x10000] that result is
    [0xFFFF0000] plus the low 16 bits of the identifier; its Hamming weight
    exceeds 16, and a call on it raises the error. *)
Theorem balance_negative (v : Z) (w : world) :
  v < 0 ->
  exists r,
    balance_vidpid v w = (w, inr r)
    /\ 0 <= r <= 0xFFFFFFFF
    /\ (- 0x10000 < v ->
        r = 0xFFFF0000 + (v + 0x10000)
        /\ popcount r = 16 + popcount (v + 0x10000)
        /\ 16 < popcount r
        /\ balance_vidpid r w = (w, inl (invalid_weight r))).
Proof.
  intros Hneg. exists (mirror v).
  split; [apply balance_mirror; lia |].
  split; [apply mirror_masked |].
  intros Hlow. rewrite mirror_negative by lia.
  assert (Hpc : popcount (0xFFFF0000 + (v + 0x10000))
                = 16 + popcount (v + 0x10000)).
  { replace (0xFFFF0000 + (v + 0x10000))
      with ((v + 0x10000) + 0xFFFF * 2 ^ Z.of_nat 16)
      by (change (2 ^ Z.of_nat 16) with 65536; lia).
    rewrite popcount_split
      by (change (2 ^ Z.of_nat 16) with 65536; lia).
    change (popcount 0xFFFF) with 16. ring. }
  pose proof (popcount_pos (v + 0x10000) ltac:(lia)) as Hpos.
  repeat split; try assumption; try lia.
  rewrite balance_check by lia.
  destruct (Z.eqb_spec (popcount (0xFFFF0000 + (v + 0x10000))) 16);
    [lia | reflexivity].
Qed.

Lemma balance_negative_witness :
  -1 < 0
  /\ exists r,
      balance_vidpid (-1) (World [] "") = (World [] "", inr r)
      /\ 0 <= r <= 0xFFFFFFFF
      /\ (- 0x10000 < -1 ->
          r = 0xFFFF0000 + (-1 + 0x10000)
          /\ popcount r = 16 + popcount (-1 + 0x10000)
          /\ 16 < popcount r
          /\ balance_vidpid r (World [] "")
             = (World [] "", inl (invalid_weight r))).
Proof.
  assert (H : -1 < 0) by lia.
  exact (conj H (balance_negative (-1) (World [] "") H)).
Defined.

(** X3: the mirrored value is balanced bit by bit, not only in total: for
    an identifier in [1, 0x7FFF], bit [i] of the result is bit [i] of the
    identifier and bit [i + 16] is its negation, for each [i] below 16. *)
Theorem mirrored_halves_complement (v i : Z) (w : world) :
  1 <= v <= 0x7FFF ->
  0 <= i < 16 ->
  exists r,
    balance_vidpid v w = (w, inr r)
    /\ Z.testbit r i = Z.testbit v i
    /\ Z.testbit r (i + 16) = negb (Z.testbit v i).
Proof.
  intros Hv Hi. exists (mirror v).
  split; [apply balance_mirror; lia |].
  unfold mirror. change 0xffffffff with (Z.ones 32).
  rewrite !Z.land_spec, !Z.lor_spec, !Z.testbit_ones_nonneg by lia.
  rewrite Z.shiftl_spec_low by lia.
  rewrite Z.shiftl_spec by lia.
  replace (i + 16 - 16) with i by lia.
  rewrite Z.lnot_spec by lia.
  assert (Z.testbit v (i + 16) = false) as ->.
  { rewrite <- (Z.mod_small v (2 ^ 16))
      by (change (2 ^ 16) with 65536; lia).
    apply Z.mod_pow2_bits_high. lia. }
  assert ((i <? 32) = true) as -> by (apply Z.ltb_lt; lia).
  assert ((i + 16 <? 32) = true) as -> by (apply Z.ltb_lt; lia).
  cbn [orb]. rewrite orb_false_r, !andb_true_r. split; reflexivity.
Qed.

Lemma mirrored_halves_complement_witness :
  1 <= 0x1234 <= 0x7FFF
  /\ 0 <= 2 < 16
  /\ exists r,
      balance_vidpid 0x1234 (World [] "") = (World [] "", inr r)
      /\ Z.testbit r 2 = Z.testbit 0x1234 2
      /\ Z.testbit r (2 + 16) = negb (Z.testbit 0x1234 2).
Proof.
  assert (H1 : 1 <= 0x1234 <= 0x7FFF) by lia.
  assert (H2 : 0 <= 2 < 16) by lia.
  exact (conj H1 (conj H2
    (mirrored_halves_complement 0x1234 2 (World [] "") H1 H2))).
Defined.

(** X4: distinct 15-bit identifiers never collide: two identifiers in
    [0, 0x7FFF] with the same balanced value are equal. *)
Theorem balance_injective_15_bit (u v r : Z) (w : world) :
  0 <= u <= 0x7FFF ->
  0 <= v <= 0x7FFF ->
  balance_vidpid u w = (w, inr r) ->
  balance_vidpid v w = (w, inr r) ->
  u = v.
Proof.
  intros Hu Hv Hru Hrv.
  assert (Hm : forall x, 1 <= x <= 0x7FFF ->
                 mirror x = x + (65535 - x) * 65536).
  { intros x Hx. apply mirror_eq. change (2 ^ 16) with 65536. lia. }
  destruct (Z.eq_dec u 0) as [-> | Hu0];
    destruct (Z.eq_dec v 0) as [-> | Hv0]; try reflexivity.
  - rewrite balance_zero in Hru. rewrite balance_mirror in Hrv by lia.
    inversion Hru; subst r. inversion Hrv as [Hr].
    rewrite Hm in Hr by lia. lia.
  - rewrite balance_zero in Hrv. rewrite balance_mirror in Hru by lia.
    inversion Hrv; subst r. inversion Hru as [Hr].
    rewrite Hm in Hr by lia. lia.
  - rewrite balance_mirror in Hru, Hrv by lia.
    inversion Hru; subst r. inversion Hrv as [Hr].
    rewrite !Hm in Hr by lia. lia.
Qed.

Lemma balance_injective_15_bit_witness :
  0 <= 0x1234 <= 0x7FFF
  /\ balance_vidpid 0x1234 (World [] "") = (World [] "", inr 0xEDCB1234)
  /\ 0x1234 = 0x1234.
Proof.
  assert (H1 : 0 <= 0x1234 <= 0x7FFF) by lia.
  assert (H2 : balance_vidpid 0x1234 (World [] "")
               = (World [] "", inr 0xEDCB1234)) by reflexivity.
  exact (conj H1 (conj H2
    (balance_injective_15_bit _ _ _ _ H1 H1 H2 H2))).
Defined.

(** X5: on [1, 0x7FFF] balancing reverses the order, and the balanced
    values run from 0xFFFE0001 (for 1) down to 0x80007FFF (for 0x7FFF); in
    particular the top bit of a mirrored identifier is always set. *)
Theorem balance_order_reversing (u v : Z) (w : world) :
  1 <= u ->
  u < v ->
  v <= 0x7FFF ->
  exists ru rv,
    balance_vidpid u w = (w, inr ru)
    /\ balance_vidpid v w = (w, inr rv)
    /\ 0x80007FFF <= rv
    /\ rv < ru
    /\ ru <= 0xFFFE0001.
Proof.
  intros Hu Huv Hv. exists (mirror u), (mirror v).
  split; [apply balance_mirror; lia |].
  split; [apply balance_mirror; lia |].
  rewrite !mirror_eq by (change (2 ^ 16) with 65536; lia). lia.
Qed.

Lemma balance_order_reversing_witness :
  1 <= 1
  /\ 1 < 0x7FFF
  /\ 0x7FFF <= 0x7FFF
  /\ exists ru rv,
      balance_vidpid 1 (World [] "") = (World [] "", inr ru)
      /\ balance_vidpid 0x7FFF (World [] "") = (World [] "", inr rv)
      /\ 0x80007FFF <= rv
      /\ rv < ru
      /\ ru <= 0xFFFE0001.
Proof.
  assert (H1 : 1 <= 1) by lia.
  assert (H2 : 1 < 0x7FFF) by lia.
  assert (H3 : 0x7FFF <= 0x7FFF) by lia.
  exact (conj H1 (conj H2 (conj H3
    (balance_order_reversing 1 0x7FFF (World [] "") H1 H2 H3)))).
Defined.

(** X6: a value in [0x8000, 0xFFFFFFFF] that the check accepts lies
    between 0xFFFF and 0xFFFF0000.  So every 16-bit value with bit 15 set,
    other than 0xFFFF itself, is rejected, and so is everything above
    0xFFFF0000. *)
Theorem accepted_values_range (v r : Z) (w w' : world) :
  0x8000 <= v <= 0xFFFFFFFF ->
  balance_vidpid v w = (w', inr r) ->
  0xFFFF <= v <= 0xFFFF0000.
Proof.
  intros Hv Hrun. rewrite balance_check in Hrun by lia.
  destruct (Z.eqb_spec (popcount v) 16) as [Hpc | Hne];
    inversion Hrun; subst.
  split.
  - destruct (Z_lt_le_dec r 0xFFFF) as [Hlt | Hge]; [| assumption].
    pose proof (popcount_below_ones 16 r) as Hb.
    change (2 ^ Z.of_nat 16) with 65536 in Hb.
    change (Z.of_nat 16) with 16 in Hb. lia.
  - destruct (Z_lt_le_dec 0xFFFF0000 r) as [Hlt | Hge]; [| assumption].
    pose proof (popcount_complement 32 r) as Hc.
    pose proof (popcount_below_ones 16 (0xFFFFFFFF - r)) as Hb.
    change (2 ^ Z.of_nat 32) with 4294967296 in Hc.
    change (2 ^ Z.of_nat 16) with 65536 in Hb.
    change (Z.of_nat 32) with 32 in Hc.
    change (Z.of_nat 16) with 16 in Hb.
    replace (4294967296 - 1 - r) with (0xFFFFFFFF - r) in Hc by lia.
    lia.
Qed.

Lemma accepted_values_range_witness :
  0x8000 <= 0xFFFF0000 <= 0xFFFFFFFF
  /\ balance_vidpid 0xFFFF0000 (World [] "")
     = (World [] "", inr 0xFFFF0000)
  /\ 0xFFFF <= 0xFFFF0000 <= 0xFFFF0000.
Proof.
  assert (H1 : 0x8000 <= 0xFFFF0000 <= 0xFFFFFFFF) by lia.
  assert (H2 : balance_vidpid 0xFFFF0000 (World [] "")
               = (World [] "", inr 0xFFFF0000)) by reflexivity.
  exact (conj H1 (conj H2 (accepted_values_range _ _ _ _ H1 H2))).
Defined.

(** ** Further properties of [main] *)

(** One turn of the loop keeps the argument vector and only appends to
    the output. *)
Lemma main_body_world (int16 : string -> exn + Z) (arg : string)
    (w : world) :
  exists tail res,
    main_body int16 arg w = (World (argv w) (stdout w ++ tail), res).
Proof.
  unfold main_body, int_base16, bind.
  destruct (int16 arg) as [e | v].
  - exists "", (inl e). unfold raise.
    rewrite append_nil_r. destruct w; reflexivity.
  - unfold ret.
    destruct (balance_cases v w)
      as [[_ H] | [(_ & _ & H) | [(_ & _ & H) | (_ & _ & H)]]];
      rewrite H; unfold print; eauto.
    exists "", (inl (invalid_weight v)).
    rewrite append_nil_r. destruct w; reflexivity.
Qed.

(** So does the whole loop. *)
Lemma for_each_world (int16 : string -> exn + Z) (args : list string) :
  forall w, exists tail res,
    for_each args (main_body int16) w
    = (World (argv w) (stdout w ++ tail), res).
Proof.
  induction args as [| arg args IH]; intros w.
  - exists "", (inr tt). cbn [for_each]. unfold ret.
    rewrite append_nil_r. destruct w; reflexivity.
  - cbn [for_each]. unfold bind at 1.
    destruct (main_body_world int16 arg w) as (t1 & [e | u] & H1);
      rewrite H1.
    + eauto.
    + destruct (IH (World (argv w) (stdout w ++ t1))) as (t2 & res & H2).
      rewrite H2. cbn [argv stdout].
      exists (t1 ++ t2), res. rewrite append_assoc. reflexivity.
Qed.

(** X7: the first argument that fails ends the run with its exception,
    whether [int(arg, 16)] rejects it or it parses to a value above 0x7FFF
    whose Hamming weight is not 16.  The lines of the arguments before it
    have been printed; nothing is printed for it or for any argument after
    it, whatever those are. *)
Theorem main_stops_at_first_failure (int16 : string -> exn + Z)
    (prog bad : string) (done rest : list string) (vbs : list (Z * Z))
    (out : string) (e : exn) :
  Forall2 (balances_to int16) done vbs ->
  (int16 bad = inl e
   \/ exists v, int16 bad = inr v /\ 0x7FFF < v /\ popcount v <> 16
                /\ e = invalid_weight v) ->
  main int16 (World (prog :: done ++ bad :: rest) out)
  = (World (prog :: done ++ bad :: rest) (out ++ output_lines vbs), inl e).
Proof.
  intros Hok Hbad.
  unfold main, bind, sys_argv. cbn [argv slice_from_1 tl].
  rewrite (for_each_done int16 done vbs Hok). cbn [argv stdout for_each].
  unfold bind at 1, main_body, int_base16, bind.
  destruct Hbad as [Hparse | (v & Hparse & Hgt & Hpc & ->)]; rewrite Hparse.
  - reflexivity.
  - unfold ret. rewrite balance_check by assumption.
    destruct (Z.eqb_spec (popcount v) 16); [contradiction | reflexivity].
Qed.

Lemma main_stops_at_first_failure_witness :
  Forall2 (balances_to int16_unprefixed) ["1234"] [(0x1234, 0xEDCB1234)]
  /\ main int16_unprefixed
       (World ["balance-vidpid.py"; "1234"; "10000"; "ffff"] "")
     = (World ["balance-vidpid.py"; "1234"; "10000"; "ffff"]
          ("" ++ output_lines [(0x1234, 0xEDCB1234)]),
        inl (invalid_weight 0x10000)).
Proof.
  assert (H1 : Forall2 (balances_to int16_unprefixed)
                 ["1234"] [(0x1234, 0xEDCB1234)]).
  { repeat constructor. }
  assert (H2 : int16_unprefixed "10000" = inl (invalid_weight 0x10000)
               \/ exists v, int16_unprefixed "10000" = inr v
                            /\ 0x7FFF < v /\ popcount v <> 16
                            /\ invalid_weight 0x10000 = invalid_weight v).
  { right. exists 0x10000.
    split; [reflexivity |]. split; [lia |].
    split; [discriminate | reflexivity]. }
  exact (conj H1
    (main_stops_at_first_failure int16_unprefixed "balance-vidpid.py"
       "10000" ["1234"] ["ffff"] _ "" _ H1 H2)).
Defined.

(** X8: whatever the arguments and however [int(arg, 16)] answers, a run of
    [main] leaves the argument vector as it was and only appends to what
    was already on standard output, also when it ends in an exception. *)
Theorem main_only_appends (int16 : string -> exn + Z) (w : world) :
  exists tail res,
    main int16 w = (World (argv w) (stdout w ++ tail), res).
Proof.
  unfold main, bind, sys_argv. apply for_each_world.
Qed.

(** ** Further properties of the output format *)

(** The number of hexadecimal digits against the magnitude: [k + 1] digits
    at least from [16^k] on, at most below [16^(k+1)].  [n] bounds the
    number of four-bit steps. *)
Lemma hex_length_bounds (n : nat) :
  forall (p : positive) (rest : string) (k : nat),
    Z.pos p < 16 ^ Z.of_nat n ->
    (16 ^ Z.of_nat k <= Z.pos p ->
     (S k + length rest <= length (HexString.Raw.of_pos p rest))%nat)
    /\ (Z.pos p < 16 ^ Z.of_nat (S k) ->
        (length (HexString.Raw.of_pos p rest) <= S k + length rest)%nat).
Proof.
  induction n as [| n IH]; intros p rest k Hn.
  - change (16 ^ Z.of_nat 0) with 1 in Hn. lia.
  - rewrite Nat2Z.inj_succ, Z.pow_succ_r in Hn by lia.
    rewrite (Nat2Z.inj_succ k), Z.pow_succ_r by lia.
    assert (Hk : k = O \/ exists k', k = S k' /\
                   16 ^ Z.of_nat k = 16 * 16 ^ Z.of_nat k').
    { destruct k as [| k']; [left; reflexivity | right].
      exists k'. split; [reflexivity |].
      rewrite Nat2Z.inj_succ, Z.pow_succ_r by lia. reflexivity. }
    assert (Hpk : forall j, 0 < 16 ^ Z.of_nat j)
      by (intros j; apply Z.pow_pos_nonneg; lia).
    do 4 (try destruct p as [p | p |]);
      cbn [HexString.Raw.of_pos length];
      try (match goal with
           | |- context [HexString.Raw.of_pos ?q (String ?c ?r)] =>
               pose proof (IH q (String c r)) as IHq;
               cbn [length] in IHq
           end;
           destruct Hk as [-> | (k' & -> & Hp16)];
           [ change (16 ^ Z.of_nat 0) with 1;
             destruct (IHq O ltac:(lia)) as [Hlo Hhi];
             change (16 ^ Z.of_nat 0) with 1 in Hlo; split; intros; lia
           | rewrite Hp16; pose proof (Hpk k');
             destruct (IHq k' ltac:(lia)) as [Hlo Hhi];
             rewrite Nat2Z.inj_succ, Z.pow_succ_r in Hhi by lia;
             split; intros; lia ]);
      (destruct Hk as [-> | (k' & -> & Hp16)];
       [ split; intros; lia
       | rewrite Hp16; pose proof (Hpk k'); split; intros; lia ]).
Qed.

Lemma pos_below_some_power (p : positive) :
  Z.pos p < 16 ^ Z.of_nat (Pos.to_nat p).
Proof.
  rewrite positive_nat_Z. apply Z.pow_gt_lin_r; lia.
Qed.

Lemma hex_digits_length_le (v : Z) (k : nat) :
  Z.abs v < 16 ^ Z.of_nat (S k) -> (length (hex_digits v) <= S k)%nat.
Proof.
  intros Hv.
  destruct v as [| p | p]; cbn [hex_digits length]; [lia | |];
    pose proof (proj2 (hex_length_bounds _ p "" k (pos_below_some_power p)))
      as H; cbn [length] in H; rewrite Nat.add_0_r in H; apply H;
    cbn [Z.abs] in Hv; lia.
Qed.

Lemma hex_digits_length_ge (v : Z) (k : nat) :
  16 ^ Z.of_nat k <= Z.abs v -> (S k <= length (hex_digits v))%nat.
Proof.
  intros Hv.
  assert (Hpk : 0 < 16 ^ Z.of_nat k) by (apply Z.pow_pos_nonneg; lia).
  destruct v as [| p | p]; cbn [hex_digits length]; [cbn in Hv; lia | |];
    pose proof (proj1 (hex_length_bounds _ p "" k (pos_below_some_power p)))
      as H; cbn [length] in H; rewrite Nat.add_0_r in H; apply H;
    cbn [Z.abs] in Hv; lia.
Qed.

Lemma format_x08_total_length (v : Z) :
  length (format_x08 v)
  = Nat.max 8 ((if (v <? 0)%Z then 1 else 0) + 2 + length (hex_digits v)).
Proof.
  unfold format_x08.
  destruct (v <? 0); rewrite !length_append, length_zeros;
    cbn [length]; lia.
Qed.

(** X9: a value between -0xFFFFF and 0xFFFFFF is printed as a field of
    exactly 8 characters, sign and ["0x"] included: at most 6 hexadecimal
    digits for a value that is not negative, at most 5 for a negative
    one. *)
Theorem format_x08_small_width (v : Z) :
  - 0x100000 < v < 0x1000000 ->
  length (format_x08 v) = 8%nat.
Proof.
  intros Hv. rewrite format_x08_total_length.
  destruct (Z.ltb_spec v 0) as [Hneg | Hpos].
  - pose proof (hex_digits_length_le v 4) as H.
    change (16 ^ Z.of_nat 5) with 1048576 in H. lia.
  - pose proof (hex_digits_length_le v 5) as H.
    change (16 ^ Z.of_nat 6) with 16777216 in H. lia.
Qed.

Lemma format_x08_small_width_witness :
  - 0x100000 < 0x1234 < 0x1000000 /\ length (format_x08 0x1234) = 8%nat.
Proof.
  assert (H : - 0x100000 < 0x1234 < 0x1000000) by lia.
  exact (conj H (format_x08_small_width _ H)).
Defined.

(** X10: a value outside that range is never cut to the width: it is
    printed with all its digits and no padding, as a field wider than 8
    characters. *)
Theorem format_x08_large_unpadded (v : Z) :
  v <= - 0x100000 \/ 0x1000000 <= v ->
  format_x08 v = (if v <? 0 then "-" else "") ++ "0x" ++ hex_digits v
  /\ (8 < length (format_x08 v))%nat.
Proof.
  intros Hv.
  assert (Hlen : (8 < (if (v <? 0)%Z then 1 else 0) + 2
                      + length (hex_digits v))%nat).
  { destruct (Z.ltb_spec v 0) as [Hneg | Hpos].
    - pose proof (hex_digits_length_ge v 5) as H.
      change (16 ^ Z.of_nat 5) with 1048576 in H. lia.
    - pose proof (hex_digits_length_ge v 6) as H.
      change (16 ^ Z.of_nat 6) with 16777216 in H. lia. }
  split; [| rewrite format_x08_total_length; lia].
  unfold format_x08.
  destruct (v <? 0); cbn [length] in *;
    match goal with
    | |- context [zeros ?n] => replace n with O by lia
    end; reflexivity.
Qed.

Lemma format_x08_large_unpadded_witness :
  (0xEDCB1234 <= - 0x100000 \/ 0x1000000 <= 0xEDCB1234)
  /\ format_x08 0xEDCB1234 = "0xedcb1234"
  /\ (8 < length (format_x08 0xEDCB1234))%nat.
Proof.
  assert (H : 0xEDCB1234 <= - 0x100000 \/ 0x1000000 <= 0xEDCB1234)
    by (right; lia).
  exact (conj H (format_x08_large_unpadded _ H)).
Defined.

(** X11: the line [main] prints for an identifier in [1, 0x7FFF] is always
    22 characters: the identifier as a field of 8 characters (["0x"] and 6
    digits), [" => "], and the balanced value as a field of 10 characters
    (["0x"] and 8 digits). *)
Theorem line_width_15_bit (v : Z) (w : world) :
  1 <= v <= 0x7FFF ->
  exists r,
    balance_vidpid v w = (w, inr r)
    /\ length (format_x08 v) = 8%nat
    /\ length (format_x08 r) = 10%nat
    /\ length (output_line v r) = 22%nat.
Proof.
  intros Hv. exists (mirror v).
  split; [apply balance_mirror; lia |].
  pose proof (mirror_range v ltac:(lia)) as Hr.
  assert (Hlo : 0x80007FFF <= mirror v).
  { rewrite mirror_eq by (change (2 ^ 16) with 65536; lia). lia. }
  assert (H8 : length (format_x08 v) = 8%nat)
    by (apply format_x08_small_width; lia).
  assert (H10 : length (format_x08 (mirror v)) = 10%nat).
  { rewrite format_x08_total_length.
    destruct (Z.ltb_spec (mirror v) 0) as [| _]; [lia |].
    pose proof (hex_digits_length_le (mirror v) 7) as Hle.
    pose proof (hex_digits_length_ge (mirror v) 7) as Hge.
    change (16 ^ Z.of_nat 8) with 4294967296 in Hle.
    change (16 ^ Z.of_nat 7) with 268435456 in Hge. lia. }
  repeat split; try assumption.
  unfold output_line. rewrite !length_append, H8, H10. reflexivity.
Qed.

Lemma line_width_15_bit_witness :
  1 <= 0x1234 <= 0x7FFF
  /\ exists r,
      balance_vidpid 0x1234 (World [] "") = (World [] "", inr r)
      /\ length (format_x08 0x1234) = 8%nat
      /\ length (format_x08 r) = 10%nat
      /\ length (output_line 0x1234 r) = 22%nat.
Proof.
  assert (H : 1 <= 0x1234 <= 0x7FFF) by lia.
  exact (conj H (line_width_15_bit _ (World [] "") H)).
Defined.

Lemma to_N_zeros (k : nat) (d : string) :
  HexString.Raw.to_N (zeros k ++ d) 0 = HexString.Raw.to_N d 0.
Proof.
  induction k as [| k IH]; [reflexivity |].
  cbn [zeros append HexString.Raw.to_N]. exact IH.
Qed.

Lemma hex_digits_abs (v : Z) :
  Z.of_N (HexString.Raw.to_N (hex_digits v) 0) = Z.abs v.
Proof.
  destruct v as [| p | p]; [reflexivity | |];
    cbn [hex_digits]; rewrite HexString.Raw.to_N_of_pos; reflexivity.
Qed.

(** X12: the printed field names its value: two integers formatted to the
    same text are equal.  So neither the padding nor the sign makes a line
    of output, or the message of the error, ambiguous. *)
Theorem format_x08_injective (u v : Z) :
  format_x08 u = format_x08 v -> u = v.
Proof.
  unfold format_x08.
  destruct (Z.ltb_spec u 0) as [Hu | Hu];
    destruct (Z.ltb_spec v 0) as [Hv | Hv];
    cbn [append]; intros H; try discriminate H;
    inversion H as [Hd];
    apply (f_equal (fun s => Z.of_N (HexString.Raw.to_N s 0))) in Hd;
    rewrite !to_N_zeros, !hex_digits_abs in Hd; lia.
Qed.

Lemma format_x08_injective_witness :
  format_x08 0x1234 = format_x08 (0x1000 + 0x234) /\ 0x1234 = 0x1000 + 0x234.
Proof.
  assert (H : format_x08 0x1234 = format_x08 (0x1000 + 0x234))
    by reflexivity.
  exact (conj H (format_x08_injective _ _ H)).
Defined.

(** X13: the mirrored values are exactly the 32-bit values whose high half
    is the 16-bit complement of a low half in [1, 0x7FFF]: balancing the
    low half of such a value gives the value back. *)
Theorem balance_of_low_half (r : Z) (w : world) :
  0 <= r <= 0xFFFFFFFF ->
  1 <= Z.land r 0xFFFF <= 0x7FFF ->
  Z.shiftr r 16 = Z.land (Z.lnot (Z.land r 0xFFFF)) 0xFFFF ->
  balance_vidpid (Z.land r 0xFFFF) w = (w, inr r).
Proof.
  change 0xFFFF with (Z.ones 16).
  rewrite Z.shiftr_div_pow2, !Z.land_ones by lia.
  change (2 ^ 16) with 65536.
  set (lo := r mod 65536). intros Hr Hlo Hhi.
  pose proof (Z.opp_lnot lo) as Hn.
  replace (Z.lnot lo) with (- lo - 1) in Hhi by lia.
  assert (Hc : (- lo - 1) mod 65536 = 65535 - lo)
    by (symmetry; apply Z.mod_unique with (q := -1); lia).
  rewrite Hc in Hhi.
  pose proof (Z.div_mod r 65536 ltac:(lia)) as Hdm. fold lo in Hdm.
  rewrite balance_mirror by lia.
  rewrite mirror_eq by (change (2 ^ 16) with 65536; lia).
  do 2 f_equal. lia.
Qed.

Lemma balance_of_low_half_witness :
  0 <= 0xEDCB1234 <= 0xFFFFFFFF
  /\ 1 <= Z.land 0xEDCB1234 0xFFFF <= 0x7FFF
  /\ Z.shiftr 0xEDCB1234 16
     = Z.land (Z.lnot (Z.land 0xEDCB1234 0xFFFF)) 0xFFFF
  /\ balance_vidpid (Z.land 0xEDCB1234 0xFFFF) (World [] "")
     = (World [] "", inr 0xEDCB1234).
Proof.
  assert (H1 : 0 <= 0xEDCB1234 <= 0xFFFFFFFF) by lia.
  assert (H2 : 1 <= Z.land 0xEDCB1234 0xFFFF <= 0x7FFF)
    by (vm_compute; split; discriminate).
  assert (H3 : Z.shiftr 0xEDCB1234 16
               = Z.land (Z.lnot (Z.land 0xEDCB1234 0xFFFF)) 0xFFFF)
    by reflexivity.
  exact (conj H1 (conj H2 (conj H3
    (balance_of_low_half _ (World [] "") H1 H2 H3)))).
Defined.
